(** * python-xbee, [xbee/asyncio/base.py]: the asyncio XBee driver

    A shallow embedding of [XBeeBase] (the asyncio protocol class) and the
    properties of its framing loop [data_received], of the pull entry point
    [wait_read_frame] and of [halt].

    The driver object is a record of its attributes; every method is a pure
    function from the object to the updated object.  The calls a method makes
    to the outside (the push callback, [print], resolving a future, appending
    to the backlog) are returned as a log, in program order. *)

From Stdlib Require Import ZArith Lia.
From Stdlib Require Import Strings.Byte Strings.String.
From stdpp Require Import base option list.

Local Open Scope Z_scope.

(** ** Bytes *)

Abbreviation bytes := (list byte).

(** [APIFrame.START_BYTE = b'\x7E'], the one constant of [xbee.frame] that
    [data_received] reads. *)
Definition START_BYTE : byte := x7e.

Definition byteToInt (b : byte) : Z := Z.of_N (Byte.to_N b).

Definition intToByte (z : Z) : byte :=
  match Byte.of_N (Z.to_N z) with
  | Some b => b
  | None => x00
  end.

(** ** The frame assembler interface

    [data_received] drives an [APIFrame] object through four operations and
    one attribute.  The class lives in [xbee/frame.py]; the driver only relies
    on this interface, so the driver is embedded over any implementation of
    it.  [parse] raises [ValueError] on a bad checksum: [None] here. *)

Class Assembler (F : Type) := {
  new_frame : bool -> F;           (* APIFrame(escaped=...) *)
  fill : F -> byte -> F;           (* frame.fill(byte) *)
  remaining_bytes : F -> Z;        (* frame.remaining_bytes() *)
  parse : F -> option F;           (* frame.parse(), None = ValueError *)
  data : F -> bytes                (* frame.data *)
}.

(** ** Futures

    [asyncio.Future] objects are heap cells.  The store is the list of all
    futures the driver has created, a reference is a position in it. *)

Inductive future (Info : Type) : Type :=
| Pending
| Finished (result : Info).
Arguments Pending {Info}.
Arguments Finished {Info} result.

(** ** Calls made by the driver, in program order *)

Inductive event (Info : Type) : Type :=
| ToCallback (info : Info)               (* self._callback(info) *)
| ToWaiter (fut : nat) (info : Info)     (* self._future.set_result(info) *)
| ToBacklog (info : Info)                (* self._queue.append(info) *)
| ToErrorCallback (msg : string)         (* self._error_callback(exc) *)
| ToStdout (msg : string).               (* print(msg) *)
Arguments ToCallback {Info} info.
Arguments ToWaiter {Info} fut info.
Arguments ToBacklog {Info} info.
Arguments ToErrorCallback {Info} msg.
Arguments ToStdout {Info} msg.

(** The frames a log hands to a consumer, whatever the path. *)
Definition delivery {Info} (e : event Info) : option Info :=
  match e with
  | ToCallback i | ToWaiter _ i | ToBacklog i => Some i
  | ToErrorCallback _ | ToStdout _ => None
  end.

Definition deliveries {Info} (log : list (event Info)) : list Info :=
  omap delivery log.

Definition is_error_report {Info} (e : event Info) : bool :=
  match e with
  | ToErrorCallback _ => true
  | _ => false
  end.

(** ** The driver object

    The attributes [data_received], [wait_read_frame] and [halt] read and
    write.  The code tests them for truth: an [APIFrame] and a [Future] are
    plain objects, true whenever present, so [_frame] and [_future] are
    options; the callbacks are only tested and called, so a flag records
    whether one is registered and a call is an entry of the log; the deque
    and the payload are true when non-empty.  Callbacks and
    [_split_response] are taken to return normally. *)

Record XBeeBase (Info F : Type) := mkXBee {
  _escaped : bool;              (* kwarg [escaped] of the backend base class *)
  _callback : bool;             (* a push callback is registered *)
  _error_callback : bool;       (* an error callback is registered *)
  _frame : option F;            (* None, or the APIFrame in progress *)
  _data : bytes;                (* bytearray of unconsumed bytes *)
  _future : option nat;         (* None, or the future of the waiter *)
  _queue : list Info;           (* deque: the backlog *)
  futures : list (future Info)  (* every Future created so far *)
}.
Arguments mkXBee {Info F}.
Arguments _escaped {Info F}.
Arguments _callback {Info F}.
Arguments _error_callback {Info F}.
Arguments _frame {Info F}.
Arguments _data {Info F}.
Arguments _future {Info F}.
Arguments _queue {Info F}.
Arguments futures {Info F}.

(** [self._split_response] is supplied by the backend base class
    [xbee.backend.base.XBeeBase]: it splits a validated payload into the
    frame info dictionary handed to consumers. *)
Class Backend (Info : Type) := _split_response : bytes -> Info.

Section Driver.
Context {Info : Type} `{!Backend Info}.
Context {F : Type} `{!Assembler F}.

Local Abbreviation xbee := (XBeeBase Info F).
Local Abbreviation log := (list (event Info)).

(** [__init__]: no frame in progress, empty buffer, no waiter, empty
    backlog. *)
Definition __init__ (escaped callback error_callback : bool) : xbee :=
  mkXBee escaped callback error_callback None [] None [] [].

Definition set_frame_data (self : xbee) (fr : option F) (d : bytes) : xbee :=
  mkXBee (_escaped self) (_callback self) (_error_callback self)
         fr d (_future self) (_queue self) (futures self).

(** [halt]: [if self._callback: pass]. *)
Definition halt (self : xbee) : xbee :=
  if _callback self then self else self.

(** [wait_read_frame].  Both branches create a future and await it; the
    reference of that future is returned with the updated object.  The
    caller's result is the future's, once it is [Finished]. *)
Definition wait_read_frame (self : xbee) : xbee * nat :=
  let fut := length (futures self) in
  match _queue self with
  | info :: q =>
      (mkXBee (_escaped self) (_callback self) (_error_callback self)
              (_frame self) (_data self) (_future self) q
              (futures self ++ [Finished info]), fut)
  | [] =>
      (mkXBee (_escaped self) (_callback self) (_error_callback self)
              (_frame self) (_data self) (Some fut) (_queue self)
              (futures self ++ [Pending]), fut)
  end.

(** Lines 88-92: the first position holding the start byte; the buffer is
    cut there, the start byte stays in it. *)
Fixpoint find_start (d : bytes) : option bytes :=
  match d with
  | [] => None
  | b :: t => if Byte.eqb b START_BYTE then Some d else find_start t
  end.

(** Lines 97-101: feed the buffer to the frame, byte by byte, while the
    frame wants more; what is left of the buffer is returned. *)
Fixpoint fill_loop (f : F) (d : bytes) : F * bytes :=
  match d with
  | [] => (f, [])
  | b :: t =>
      if 0 <? remaining_bytes f then fill_loop (fill f b) t else (f, d)
  end.

(** Lines 108-114: the three delivery paths. *)
Definition deliver (self : xbee) (info : Info) : xbee * log :=
  if _callback self then (self, [ToCallback info])
  else match _future self with
       | Some fut =>
           (mkXBee (_escaped self) (_callback self) (_error_callback self)
                   (_frame self) (_data self) None (_queue self)
                   (<[fut := Finished info]> (futures self)),
            [ToWaiter fut info])
       | None =>
           (mkXBee (_escaped self) (_callback self) (_error_callback self)
                   (_frame self) (_data self) None
                   (_queue self ++ [info]) (futures self),
            [ToBacklog info])
       end.

(** Lines 103-118: the frame is complete. *)
Definition complete (self : xbee) (f : F) : xbee * log :=
  match parse f with
  | Some f' =>
      let info := _split_response (data f') in
      match data f' with
      | [] => (self, [])
      | _ :: _ => deliver self info
      end
  | None => (self, [ToStdout "Bad frame checksum"%string])
  end.

(** Lines 87-95: the frame in progress, or a new one at the first start
    byte, with the buffer it reads from. *)
Definition resync (self : xbee) (buf : bytes) : option (F * bytes) :=
  match _frame self with
  | Some f => Some (f, buf)
  | None =>
      match find_start buf with
      | Some buf' => Some (new_frame (_escaped self), buf')
      | None => None
      end
  end.

Definition data_received (self : xbee) (chunk : bytes) : xbee * log :=
  let buf := _data self ++ chunk in
  match resync self buf with
  | None => (set_frame_data self None buf, [])
  | Some (f0, buf0) =>
      let '(f, rest) := fill_loop f0 buf0 in
      if remaining_bytes f =? 0 then
        let '(self', l) := complete self f in
        (set_frame_data self' None rest, l)
      else (set_frame_data self (Some f) rest, [])
  end.


(** What lines 107-114 do with a validated payload. *)
Definition hand_over (self : xbee) (p : bytes) : xbee * log :=
  match p with
  | [] => (self, [])
  | _ :: _ => deliver self (_split_response p)
  end.

(** Several chunks delivered one after the other; the logs are joined. *)
Fixpoint feed (self : xbee) (chunks : list bytes) : xbee * log :=
  match chunks with
  | [] => (self, [])
  | c :: cs =>
      let '(s1, l1) := data_received self c in
      let '(s2, l2) := feed s1 cs in
      (s2, l1 ++ l2)
  end.

(** The arguments of the [fill] calls of lines 97-101, in call order. *)
Fixpoint fed (f : F) (d : bytes) : bytes :=
  match d with
  | [] => []
  | b :: t => if 0 <? remaining_bytes f then b :: fed (fill f b) t else []
  end.

(** The frame the loop of lines 97-101 ends with, when [data_received]
    gets that far. *)
Definition assembled (self : xbee) (chunk : bytes) : option (F * bytes) :=
  match resync self (_data self ++ chunk) with
  | Some (f0, buf0) => Some (fill_loop f0 buf0)
  | None => None
  end.

(** Whether line 103 finds the frame complete in this call. *)
Definition completes (self : xbee) (chunk : bytes) : bool :=
  match assembled self chunk with
  | Some (f, _) => remaining_bytes f =? 0
  | None => false
  end.

(** *** Interleavings of the entry points *)

Inductive call : Type :=
| Data (chunk : bytes)     (* the transport calls data_received(chunk) *)
| Wait                     (* a consumer calls wait_read_frame() *)
| Halt.                    (* halt() *)

Definition step (self : xbee) (c : call) : xbee :=
  match c with
  | Data chunk => (data_received self chunk).1
  | Wait => (wait_read_frame self).1
  | Halt => halt self
  end.

Definition run (self : xbee) (cs : list call) : xbee := foldl step self cs.

(** The channel invariant: the waiter slot is occupied only while the
    backlog is empty. *)
Definition waiter_excludes_backlog (self : xbee) : Prop :=
  is_Some (_future self) -> _queue self = [].

(** The waiter slot, when occupied, refers to a future that is pending. *)
Definition waiter_pending (self : xbee) : Prop :=
  forall fut, _future self = Some fut -> futures self !! fut = Some Pending.

End Driver.

(** ** The frame assembler [APIFrame] *)

Module APIFrame.

(** Modelled from the spec: the class [APIFrame] of [xbee/frame.py] is not
    among the sources at hand.  The assembly state is the escaped-mode flag
    it is created with, the wire bytes accumulated so far (start marker,
    length field, payload, checksum) and the validated payload. *)
Record t : Type := mk {
  escaped : bool;
  raw_data : bytes;
  payload : bytes
}.

(** Modelled from the spec: a new assembler carries the escaped-mode flag
    and has seen no byte. *)
Definition init (e : bool) : t := mk e [] [].

(** Modelled from the spec: [fill] takes one byte that is already
    unescaped and advances the state by it. *)
Definition fill (f : t) (b : byte) : t :=
  mk (escaped f) (raw_data f ++ [b]) (payload f).

(** Modelled from the spec: the 2-byte big-endian length field that
    follows the start marker. *)
Definition declared_length (raw : bytes) : Z :=
  256 * byteToInt (default x00 (raw !! 1%nat))
  + byteToInt (default x00 (raw !! 2%nat)).

(** Modelled from the spec: the count of wire bytes still needed to
    complete the frame: start marker and length field first, then payload
    and checksum. *)
Definition remaining_bytes (f : t) : Z :=
  let n := Z.of_nat (length (raw_data f)) in
  if n <? 3 then 3 - n
  else 3 + declared_length (raw_data f) + 1 - n.

(** Modelled from the spec: the sum of all payload bytes. *)
Definition sum_bytes (p : bytes) : Z :=
  foldr (fun b acc => byteToInt b + acc) 0 p.

(** Modelled from the spec: the checksum is [0xFF] minus the low byte of
    the sum of all payload bytes. *)
Definition checksum (p : bytes) : Z := 255 - sum_bytes p mod 256.

(** Modelled from the spec: [parse] recomputes the checksum over the
    received payload and succeeds iff it matches the trailing checksum
    byte; on success the validated payload is exposed. *)
Definition parse (f : t) : option t :=
  let len := Z.to_nat (declared_length (raw_data f)) in
  let p := take len (drop 3 (raw_data f)) in
  match last (raw_data f) with
  | Some c =>
      if byteToInt c =? checksum p then Some (mk (escaped f) (raw_data f) p)
      else None
  | None => None
  end.

#[global] Instance assembler : Assembler t :=
  Build_Assembler t init fill remaining_bytes parse payload.

(** Modelled from the spec: the wire format of a payload: the start
    marker, the payload size as a 2-byte big-endian length, the payload, the
    checksum. *)
Definition wire (p : bytes) : bytes :=
  let len := Z.of_nat (length p) in
  START_BYTE :: intToByte (len / 256) :: intToByte (len mod 256)
    :: p ++ [intToByte (checksum p)].

(** Modelled from the spec: the escape marker of escaped mode. *)
Definition ESCAPE_BYTE : byte := x7d.

(** Modelled from the spec: escape decoding as the spec describes it, an
    escape marker followed by X stands for the single byte X XOR 0x20. *)
Fixpoint unescape (d : bytes) : bytes :=
  match d with
  | [] => []
  | b :: t =>
      if Byte.eqb b ESCAPE_BYTE then
        match t with
        | [] => []
        | x :: t' => intToByte (Z.lxor (byteToInt x) 32) :: unescape t'
        end
      else b :: unescape t
  end.

End APIFrame.

(** Modelled from the spec: the split step of the backend base class,
    which is not among the sources at hand: the message-type discriminant
    (the first payload byte) and the remaining bytes. *)
#[global] Instance split_id_body : Backend (bytes * bytes) :=
  fun p => (take 1 p, drop 1 p).

(** The driver has read the wire bytes [pre] of the current frame and
    nothing else is buffered. *)
Definition receiving {Info : Type} (pre : bytes)
    (self : XBeeBase Info APIFrame.t) : Prop :=
  _data self = [] /\
  match _frame self with
  | None => pre = []
  | Some f => APIFrame.raw_data f = pre /\ pre <> []
  end.

(** ** The transport hooks and longer runs *)

(** What [connection_lost], [pause_writing] and [resume_writing] do to the
    outside: they print and stop the event loop. *)
Inductive transport_event : Type :=
| Printed (msg : string)       (* print(msg) *)
| PrintedSize (size : Z)       (* print(get_write_buffer_size()) *)
| LoopStopped.                 (* self._transport.loop.stop() *)

Section Hooks.
Context {Info : Type} `{!Backend Info}.
Context {F : Type} `{!Assembler F}.

Local Abbreviation xbee := (XBeeBase Info F).
Local Abbreviation log := (list (event Info)).

(** [connection_lost(exc)]: prints and stops the loop; [exc] is not read. *)
Definition connection_lost (self : xbee) (exc : option string)
  : xbee * list transport_event :=
  (self, [Printed "port closed"%string; LoopStopped]).

(** [pause_writing]; [size] is what the transport answers to
    [get_write_buffer_size()]. *)
Definition pause_writing (self : xbee) (size : Z)
  : xbee * list transport_event :=
  (self, [Printed "pause writing"%string; PrintedSize size]).

(** [resume_writing]. *)
Definition resume_writing (self : xbee) (size : Z)
  : xbee * list transport_event :=
  (self, [PrintedSize size; Printed "resume writing"%string]).

(** The calls of a consumer and of the transport, hooks included. *)
Inductive transport_call : Type :=
| Entry (c : call)
| ConnectionLost (exc : option string)
| PauseWriting (size : Z)
| ResumeWriting (size : Z).

Definition transport_step (self : xbee) (c : transport_call) : xbee :=
  match c with
  | Entry c => step self c
  | ConnectionLost exc => (connection_lost self exc).1
  | PauseWriting size => (pause_writing self size).1
  | ResumeWriting size => (resume_writing self size).1
  end.

Definition transport_run (self : xbee) (cs : list transport_call) : xbee :=
  foldl transport_step self cs.

(** The calls that are left when the hooks are taken out. *)
Definition entry (c : transport_call) : option call :=
  match c with
  | Entry c => Some c
  | _ => None
  end.

(** A run that also collects what the calls log. *)
Definition step_log (self : xbee) (c : call) : xbee * log :=
  match c with
  | Data chunk => data_received self chunk
  | Wait => ((wait_read_frame self).1, [])
  | Halt => (halt self, [])
  end.

Fixpoint trace (self : xbee) (cs : list call) : xbee * log :=
  match cs with
  | [] => (self, [])
  | c :: cs =>
      let '(s1, l1) := step_log self c in
      let '(s2, l2) := trace s1 cs in
      (s2, l1 ++ l2)
  end.

(** The results of the futures that are resolved, in creation order. *)
Definition result (f : future Info) : option Info :=
  match f with
  | Finished r => Some r
  | Pending => None
  end.

Definition results (store : list (future Info)) : list Info :=
  omap result store.

(** [n] calls of [wait_read_frame] in a row, with the futures they await. *)
Fixpoint pulls (n : nat) (self : xbee) : xbee * list nat :=
  match n with
  | O => (self, [])
  | S n =>
      let '(s1, fut) := wait_read_frame self in
      let '(s2, futs) := pulls n s1 in
      (s2, fut :: futs)
  end.

(** The waiter, when there is one, is the last future created. *)
Definition waiter_is_last (self : xbee) : Prop :=
  forall w, _future self = Some w ->
    exists store, futures self = store ++ [Pending] /\ length store = w.

(** Pull mode: the frames logged as handed over are the results of the
    resolved futures followed by the backlog. *)
Definition pull_accounting (self : xbee) (l : log) : Prop :=
  _callback self = false /\
  waiter_excludes_backlog self /\
  waiter_is_last self /\
  deliveries l = results (futures self) ++ _queue self.

End Hooks.

(** * Properties of the driver, for every frame assembler *)

Section DriverFacts.
Context {Info : Type} `{!Backend Info}.
Context {F : Type} `{!Assembler F}.

Local Abbreviation xbee := (XBeeBase Info F).

(** *** The fill loop *)

Lemma fill_loop_stuck (f : F) (d : bytes) :
  remaining_bytes f <= 0 -> fill_loop f d = (f, d).
Proof.
  intros Hr. destruct d as [|b t]; simpl; [reflexivity|].
  destruct (Z.ltb_spec 0 (remaining_bytes f)); [lia|reflexivity].
Qed.

Lemma fill_loop_app (f : F) (a b : bytes) :
  fill_loop f (a ++ b) = fill_loop (fill_loop f a).1 ((fill_loop f a).2 ++ b).
Proof.
  revert f. induction a as [|x a IH]; intros f; simpl; [reflexivity|].
  destruct (Z.ltb_spec 0 (remaining_bytes f)) as [Hlt|Hge]; [apply IH|].
  simpl. destruct (Z.ltb_spec 0 (remaining_bytes f)); [lia|reflexivity].
Qed.

Lemma fed_prefix (f : F) (d : bytes) : fed f d `prefix_of` d.
Proof.
  revert f. induction d as [|b t IH]; intros f; simpl; [done|].
  destruct (0 <? remaining_bytes f).
  - by apply prefix_cons.
  - apply prefix_nil.
Qed.

Lemma fill_loop_fed (f : F) (d : bytes) :
  fill_loop f d = (foldl fill f (fed f d), drop (length (fed f d)) d).
Proof.
  revert f. induction d as [|b t IH]; intros f; simpl; [reflexivity|].
  destruct (0 <? remaining_bytes f); simpl; [apply IH|reflexivity].
Qed.

(** *** Resynchronisation *)

Lemma find_start_suffix (d d' : bytes) :
  find_start d = Some d' -> d' `suffix_of` d /\ head d' = Some START_BYTE.
Proof.
  induction d as [|b t IH]; simpl; [discriminate|].
  destruct (Byte.eqb b START_BYTE) eqn:E.
  - intros [= <-]. split; [done|]. simpl. f_equal. by apply byte_dec_bl.
  - intros Hd. destruct (IH Hd) as [Hs Hh]. split; [|done].
    by apply suffix_cons_r.
Qed.

Lemma find_start_app (a a' b : bytes) :
  find_start a = Some a' -> find_start (a ++ b) = Some (a' ++ b).
Proof.
  induction a as [|x a IH]; simpl; [discriminate|].
  destruct (Byte.eqb x START_BYTE); [by intros [= <-]|done].
Qed.

(** *** Delivery *)

Lemma deliver_one (self : xbee) (info : Info) :
  deliveries (deliver self info).2 = [info].
Proof.
  unfold deliver. destruct (_callback self); [reflexivity|].
  destruct (_future self); reflexivity.
Qed.

Lemma deliver_frame_data (self : xbee) (info : Info) :
  _frame (deliver self info).1 = _frame self /\
  _data (deliver self info).1 = _data self.
Proof.
  unfold deliver. destruct (_callback self); [done|].
  destruct (_future self); done.
Qed.

Lemma complete_at_most_one (self : xbee) (f : F) :
  (length (deliveries (complete self f).2) <= 1)%nat.
Proof.
  unfold complete. destruct (parse f) as [f'|]; simpl; [|lia].
  destruct (data f'); simpl; [lia|]. by rewrite deliver_one.
Qed.

Lemma complete_no_error_report (self : xbee) (f : F) :
  forallb (fun e => negb (is_error_report e)) (complete self f).2 = true.
Proof.
  unfold complete. destruct (parse f) as [f'|]; simpl; [|done].
  destruct (data f'); simpl; [done|].
  unfold deliver. destruct (_callback self); [done|].
  destruct (_future self); done.
Qed.

(** *** The channel invariants *)

Lemma deliver_excludes (self : xbee) (info : Info) :
  waiter_excludes_backlog self ->
  waiter_excludes_backlog (deliver self info).1.
Proof.
  unfold waiter_excludes_backlog, deliver.
  destruct (_callback self); [done|].
  destruct (_future self); simpl; by intros ? [? [=]].
Qed.

Lemma complete_excludes (self : xbee) (f : F) :
  waiter_excludes_backlog self ->
  waiter_excludes_backlog (complete self f).1.
Proof.
  intros Hinv. unfold complete. destruct (parse f) as [f'|]; [|done].
  destruct (data f'); [done|]. by apply deliver_excludes.
Qed.

Lemma data_received_excludes (self : xbee) (chunk : bytes) :
  waiter_excludes_backlog self ->
  waiter_excludes_backlog (data_received self chunk).1.
Proof.
  intros Hinv. unfold data_received.
  destruct (resync self (_data self ++ chunk)) as [[f0 buf0]|]; [|done].
  destruct (fill_loop f0 buf0) as [f rest].
  destruct (remaining_bytes f =? 0); [|done].
  pose proof (complete_excludes self f Hinv) as Hc.
  destruct (complete self f) as [self' l]. done.
Qed.

Lemma wait_read_frame_excludes (self : xbee) :
  waiter_excludes_backlog self ->
  waiter_excludes_backlog (wait_read_frame self).1.
Proof.
  unfold waiter_excludes_backlog, wait_read_frame.
  destruct (_queue self) as [|info q] eqn:E; simpl; [done|].
  intros Hinv Hw. by specialize (Hinv Hw).
Qed.

Lemma halt_id (self : xbee) : halt self = self.
Proof. unfold halt. by destruct (_callback self). Qed.

Lemma step_excludes (self : xbee) (c : call) :
  waiter_excludes_backlog self -> waiter_excludes_backlog (step self c).
Proof.
  destruct c; simpl.
  - apply data_received_excludes.
  - apply wait_read_frame_excludes.
  - by rewrite halt_id.
Qed.

Lemma run_excludes (self : xbee) (cs : list call) :
  waiter_excludes_backlog self -> waiter_excludes_backlog (run self cs).
Proof.
  revert self. induction cs as [|c cs IH]; intros self Hinv; [done|].
  simpl. apply IH. by apply step_excludes.
Qed.

(** The future in the waiter slot is pending in every state the driver
    reaches on its own: [set_result] at line 111 meets no resolved future. *)
Lemma step_waiter_pending (self : xbee) (c : call) :
  waiter_pending self -> waiter_pending (step self c).
Proof.
  unfold waiter_pending. intros Hinv. destruct c as [chunk| |]; simpl.
  - unfold data_received.
    destruct (resync self (_data self ++ chunk)) as [[f0 buf0]|]; [|done].
    destruct (fill_loop f0 buf0) as [f rest].
    destruct (remaining_bytes f =? 0); [|done].
    unfold complete. destruct (parse f) as [f'|]; [|done].
    destruct (data f'); [done|].
    unfold deliver. destruct (_callback self); [done|].
    destruct (_future self); done.
  - unfold wait_read_frame. destruct (_queue self); simpl.
    + intros fut [= <-]. by rewrite lookup_app_r, Nat.sub_diag.
    + intros fut Hf. specialize (Hinv fut Hf).
      by rewrite lookup_app_l by (by eapply lookup_lt_Some).
  - by rewrite halt_id.
Qed.

Lemma run_waiter_pending (escaped cb ecb : bool) (cs : list call) :
  waiter_pending (run (__init__ escaped cb ecb : xbee) cs).
Proof.
  assert (forall self : xbee, waiter_pending self -> waiter_pending (run self cs))
    as Hrun.
  { induction cs as [|c cs IH]; intros self Hinv; [done|].
    simpl. apply IH. by apply step_waiter_pending. }
  apply Hrun. by intros fut.
Qed.

(** C4.  In every state reached from a new driver by any interleaving of
    [data_received] calls (hence of frame completions), [wait_read_frame]
    calls and [halt] calls, a waiter and a non-empty backlog do not
    coexist: the waiter slot is occupied only while the backlog is empty. *)
Theorem waiter_and_backlog_exclusive (escaped cb ecb : bool) (cs : list call) :
  waiter_excludes_backlog (run (__init__ escaped cb ecb : xbee) cs).
Proof.
  apply run_excludes. unfold waiter_excludes_backlog. simpl.
  by intros [? [=]].
Qed.

(** *** One frame per call *)

(** C9.  One call of [data_received] hands at most one frame to a
    consumer, the backlog grows by at most one entry, and when a frame is
    handed over the driver is left with no frame in progress and with the
    bytes the fill loop did not read still in the buffer, unscanned. *)
Theorem data_received_at_most_one_frame (self : xbee) (chunk : bytes) :
  (length (deliveries (data_received self chunk).2) <= 1)%nat /\
  (length (_queue (data_received self chunk).1)
     <= S (length (_queue self)))%nat /\
  (deliveries (data_received self chunk).2 <> [] ->
   _frame (data_received self chunk).1 = None /\
   exists f, assembled self chunk
             = Some (f, _data (data_received self chunk).1)).
Proof.
  unfold data_received, assembled.
  destruct (resync self (_data self ++ chunk)) as [[f0 buf0]|];
    [|simpl; split; [lia|split; [lia|done]]].
  destruct (fill_loop f0 buf0) as [f rest].
  destruct (remaining_bytes f =? 0);
    [|simpl; split; [lia|split; [lia|done]]].
  pose proof (complete_at_most_one self f) as Hone.
  assert (length (_queue (complete self f).1) <= S (length (_queue self)))%nat
    as Hq.
  { unfold complete. destruct (parse f) as [f'|]; [|simpl; lia].
    destruct (data f'); [simpl; lia|].
    unfold deliver. destruct (_callback self); [simpl; lia|].
    destruct (_future self); simpl; [lia|]. rewrite length_app. simpl. lia. }
  destruct (complete self f) as [self' l]. simpl in *.
  split; [done|]. split; [done|]. intros _. split; [done|]. by exists f.
Qed.

(** A completed frame always ends the call with no frame in progress and
    the unread bytes in the buffer, whatever [parse] says. *)
Lemma data_received_completion (self : xbee) (chunk : bytes) (f : F)
    (rest : bytes) :
  assembled self chunk = Some (f, rest) ->
  remaining_bytes f = 0 ->
  data_received self chunk
  = (set_frame_data (complete self f).1 None rest, (complete self f).2).
Proof.
  unfold assembled, data_received.
  destruct (resync self (_data self ++ chunk)) as [[f0 buf0]|]; [|done].
  intros [= ->] ->. simpl. by destruct (complete self f).
Qed.

(** C10.  A completed frame that validates and has an empty payload is
    handed to no consumer: the call makes no callback, resolves no waiter,
    appends nothing to the backlog and prints nothing; the frame in progress
    is reset and the unread bytes stay buffered, as after a delivery. *)
Theorem empty_payload_not_delivered (self : xbee) (chunk : bytes) (f f' : F)
    (rest : bytes) :
  assembled self chunk = Some (f, rest) ->
  remaining_bytes f = 0 ->
  parse f = Some f' ->
  data f' = [] ->
  data_received self chunk = (set_frame_data self None rest, []) /\
  _frame (data_received self chunk).1 = None /\
  _future (data_received self chunk).1 = _future self /\
  _queue (data_received self chunk).1 = _queue self /\
  futures (data_received self chunk).1 = futures self.
Proof.
  intros Ha Hr Hp Hd.
  rewrite (data_received_completion self chunk f rest Ha Hr).
  unfold complete. rewrite Hp, Hd. done.
Qed.

(** A completed frame that fails validation is handed to no consumer; the
    only call made is [print]. *)
Lemma bad_checksum_not_delivered (self : xbee) (chunk : bytes) (f : F)
    (rest : bytes) :
  assembled self chunk = Some (f, rest) ->
  remaining_bytes f = 0 ->
  parse f = None ->
  data_received self chunk
  = (set_frame_data self None rest, [ToStdout "Bad frame checksum"%string]).
Proof.
  intros Ha Hr Hp.
  rewrite (data_received_completion self chunk f rest Ha Hr).
  unfold complete. by rewrite Hp.
Qed.

(** [data_received] never calls the error callback. *)
Lemma data_received_no_error_report (self : xbee) (chunk : bytes) :
  forallb (fun e => negb (is_error_report e)) (data_received self chunk).2
  = true.
Proof.
  unfold data_received.
  destruct (resync self (_data self ++ chunk)) as [[f0 buf0]|]; [|done].
  destruct (fill_loop f0 buf0) as [f rest].
  destruct (remaining_bytes f =? 0); [|done].
  pose proof (complete_no_error_report self f).
  by destruct (complete self f).
Qed.

(** *** What reaches [fill] *)

(** C7, as the code has it.  [data_received] does no escape decoding.  The
    assembler it feeds is the frame in progress or, at a start byte, a new
    one that is handed the escaped-mode flag; the bytes passed to [fill]
    are a prefix of the raw buffer from there on, each byte unchanged, one
    call per raw byte, in order. *)
Theorem data_received_feeds_raw_bytes (self : xbee) (chunk : bytes) (f0 : F)
    (buf0 : bytes) :
  resync self (_data self ++ chunk) = Some (f0, buf0) ->
  f0 = default (new_frame (_escaped self)) (_frame self) /\
  buf0 `suffix_of` (_data self ++ chunk) /\
  fed f0 buf0 `prefix_of` buf0 /\
  assembled self chunk
  = Some (foldl fill f0 (fed f0 buf0), drop (length (fed f0 buf0)) buf0).
Proof.
  intros Hr. unfold assembled. rewrite Hr, fill_loop_fed.
  split; [|split; [|split; [apply fed_prefix|done]]].
  - unfold resync in Hr. destruct (_frame self); [by inversion Hr|].
    destruct (find_start (_data self ++ chunk)); by inversion Hr.
  - unfold resync in Hr. destruct (_frame self); [by inversion Hr|].
    destruct (find_start (_data self ++ chunk)) eqn:E; inversion Hr; subst.
    by apply find_start_suffix.
Qed.

(** *** [halt] *)

(** C5, as the code has it.  [halt] changes nothing: an outstanding waiter
    stays in the slot and stays pending, later [wait_read_frame] and
    [data_received] calls behave as before the [halt], and a second [halt]
    has no further effect. *)
Theorem halt_leaves_channel_unchanged (self : xbee) (fut : nat) :
  _future self = Some fut ->
  futures self !! fut = Some Pending ->
  _future (halt self) = Some fut /\
  futures (halt self) !! fut = Some Pending /\
  wait_read_frame (halt self) = wait_read_frame self /\
  (forall chunk, data_received (halt self) chunk = data_received self chunk) /\
  halt (halt self) = halt self.
Proof.
  intros Hf Hp. rewrite !halt_id. done.
Qed.

(** *** A second pull while one is outstanding *)

(** C8, as the code has it.  In pull mode with a waiter outstanding, a
    second [wait_read_frame] is not refused: it creates a new pending future
    and puts it in the waiter slot in place of the first.  The next frame
    that completes resolves the second future; the first stays pending and
    the slot is cleared. *)
Theorem second_wait_replaces_waiter (self : xbee) (w : nat) (chunk : bytes)
    (f f' : F) (rest : bytes) :
  _callback self = false ->
  _future self = Some w ->
  futures self !! w = Some Pending ->
  _queue self = [] ->
  assembled (wait_read_frame self).1 chunk = Some (f, rest) ->
  remaining_bytes f = 0 ->
  parse f = Some f' ->
  data f' <> [] ->
  let self2 := (wait_read_frame self).1 in
  let w2 := (wait_read_frame self).2 in
  let self3 := (data_received self2 chunk).1 in
  w2 <> w /\
  _future self2 = Some w2 /\
  futures self2 !! w2 = Some Pending /\
  futures self2 !! w = Some Pending /\
  (data_received self2 chunk).2 = [ToWaiter w2 (_split_response (data f'))] /\
  futures self3 !! w2 = Some (Finished (_split_response (data f'))) /\
  futures self3 !! w = Some Pending /\
  _future self3 = None.
Proof.
  intros Hcb Hw Hp Hq Ha Hr Hparse Hd. simpl.
  rewrite (data_received_completion _ chunk f rest Ha Hr).
  pose proof (lookup_lt_Some _ _ _ Hp) as Hlt.
  unfold complete. rewrite Hparse.
  destruct (data f') as [|b p] eqn:E; [done|].
  unfold deliver, wait_read_frame. rewrite Hq. simpl. rewrite Hcb. simpl.
  split; [lia|]. split; [done|].
  split; [by rewrite lookup_app_r, Nat.sub_diag|].
  split; [by rewrite lookup_app_l|].
  split; [done|].
  split.
  - rewrite list_lookup_insert_eq; [done|]. rewrite length_app. simpl. lia.
  - split; [|done].
    rewrite list_lookup_insert_ne by lia. by rewrite lookup_app_l.
Qed.

(** *** Chunk boundaries *)

Lemma deliver_set_frame_data (self : xbee) (fr : option F) (d : bytes)
    (info : Info) :
  deliver (set_frame_data self fr d) info
  = (set_frame_data (deliver self info).1 fr d, (deliver self info).2).
Proof.
  unfold deliver. simpl. destruct (_callback self); [done|].
  destruct (_future self); done.
Qed.

Lemma complete_set_frame_data (self : xbee) (fr : option F) (d : bytes)
    (f : F) :
  complete (set_frame_data self fr d) f
  = (set_frame_data (complete self f).1 fr d, (complete self f).2).
Proof.
  unfold complete. destruct (parse f) as [f'|]; [|done].
  destruct (data f'); [done|]. apply deliver_set_frame_data.
Qed.

Lemma resync_app (self : xbee) (buf b : bytes) (f0 : F) (buf0 : bytes) :
  resync self buf = Some (f0, buf0) ->
  resync self (buf ++ b) = Some (f0, buf0 ++ b).
Proof.
  unfold resync. destruct (_frame self); [by intros [= -> ->]|].
  destruct (find_start buf) as [buf'|] eqn:E; [|done].
  intros [= <- <-]. by rewrite (find_start_app _ _ b E).
Qed.

(** The tail of a call of [data_received], from the fill loop on. *)
Lemma data_received_from (self : xbee) (chunk : bytes) (f0 : F)
    (buf0 : bytes) :
  resync self (_data self ++ chunk) = Some (f0, buf0) ->
  data_received self chunk
  = if remaining_bytes (fill_loop f0 buf0).1 =? 0
    then (set_frame_data (complete self (fill_loop f0 buf0).1).1 None
            (fill_loop f0 buf0).2,
          (complete self (fill_loop f0 buf0).1).2)
    else (set_frame_data self (Some (fill_loop f0 buf0).1)
            (fill_loop f0 buf0).2, []).
Proof.
  intros Hr. unfold data_received. rewrite Hr.
  destruct (fill_loop f0 buf0) as [f rest]. simpl.
  destruct (remaining_bytes f =? 0); [|done]. by destruct (complete self f).
Qed.

(** A chunk boundary is not observable as long as no frame completes
    before it: delivering [a] and then [b] is delivering [a ++ b]. *)
Lemma data_received_app (self : xbee) (a b : bytes) :
  completes self a = false ->
  (data_received self a).2 = [] /\
  data_received (data_received self a).1 b = data_received self (a ++ b).
Proof.
  unfold completes, assembled. intros Hc.
  destruct (resync self (_data self ++ a)) as [[f0 buf0]|] eqn:Hr.
  - rewrite (data_received_from self a f0 buf0 Hr).
    assert ((remaining_bytes (fill_loop f0 buf0).1 =? 0) = false) as Hc'.
    { by destruct (fill_loop f0 buf0). }
    rewrite Hc'. simpl. split; [done|].
    assert (resync self (_data self ++ a ++ b) = Some (f0, buf0 ++ b)) as Hr2.
    { rewrite app_assoc. by apply resync_app. }
    rewrite (data_received_from self (a ++ b) f0 (buf0 ++ b) Hr2).
    rewrite (data_received_from _ b (fill_loop f0 buf0).1
               ((fill_loop f0 buf0).2 ++ b)) by done.
    rewrite <- fill_loop_app.
    destruct (remaining_bytes (fill_loop f0 (buf0 ++ b)).1 =? 0); [|done].
    by rewrite complete_set_frame_data.
  - assert (data_received self a
            = (set_frame_data self None (_data self ++ a), [])) as ->.
    { unfold data_received. by rewrite Hr. }
    simpl. split; [done|].
    unfold data_received. simpl. rewrite <- app_assoc.
    assert (_frame self = None) as Hn.
    { unfold resync in Hr. by destruct (_frame self). }
    unfold resync. simpl. rewrite Hn.
    destruct (find_start (_data self ++ a ++ b)) as [buf'|]; [|done].
    destruct (fill_loop (new_frame (_escaped self)) buf') as [f rest].
    destruct (remaining_bytes f =? 0); [|done].
    rewrite complete_set_frame_data. by destruct (complete self f).
Qed.

End DriverFacts.

(** * Properties of the frame assembler *)

Section APIFrameFacts.

Lemma byteToInt_intToByte (z : Z) :
  0 <= z < 256 -> byteToInt (intToByte z) = z.
Proof.
  intros Hz. unfold byteToInt, intToByte.
  destruct (Byte.of_N (Z.to_N z)) as [b|] eqn:E.
  - apply Byte.to_of_N in E. rewrite E. lia.
  - apply Byte.of_N_None_iff in E. lia.
Qed.

Lemma checksum_range (p : bytes) : 0 <= APIFrame.checksum p < 256.
Proof.
  unfold APIFrame.checksum.
  pose proof (Z.mod_pos_bound (APIFrame.sum_bytes p) 256). lia.
Qed.

Lemma length_wire (p : bytes) :
  length (APIFrame.wire p) = (length p + 4)%nat.
Proof. unfold APIFrame.wire. simpl. rewrite length_app. simpl. lia. Qed.

Lemma declared_length_prefix (p pre suf : bytes) :
  Z.of_nat (length p) < 65536 ->
  pre ++ suf = APIFrame.wire p ->
  (3 <= length pre)%nat ->
  APIFrame.declared_length pre = Z.of_nat (length p).
Proof.
  intros Hp Hw Hn.
  destruct pre as [|x0 [|x1 [|x2 pre]]]; simpl in Hn; try lia.
  unfold APIFrame.wire in Hw. simpl in Hw. injection Hw as _ -> -> _.
  unfold APIFrame.declared_length. simpl.
  pose proof (Z.div_mod (Z.of_nat (length p)) 256 ltac:(lia)) as Hdm.
  pose proof (Z.mod_pos_bound (Z.of_nat (length p)) 256 ltac:(lia)).
  assert (0 <= Z.of_nat (length p) / 256 < 256).
  { split; [apply Z.div_pos; lia|apply Z.div_lt_upper_bound; lia]. }
  rewrite !byteToInt_intToByte by lia. lia.
Qed.

(** While a frame is being received, [remaining_bytes] is positive; once
    its last wire byte is in, it is zero. *)
Lemma remaining_bytes_wire (p pre suf : bytes) (f : APIFrame.t) :
  Z.of_nat (length p) < 65536 ->
  APIFrame.raw_data f = pre ->
  pre ++ suf = APIFrame.wire p ->
  (suf = [] -> APIFrame.remaining_bytes f = 0) /\
  (suf <> [] -> 0 < APIFrame.remaining_bytes f).
Proof.
  intros Hp Hraw Hw.
  assert (length pre + length suf = length p + 4)%nat as Hlen.
  { by rewrite <- length_app, Hw, length_wire. }
  unfold APIFrame.remaining_bytes. rewrite Hraw.
  destruct (Z.ltb_spec (Z.of_nat (length pre)) 3) as [Hlt|Hge].
  - split; [|lia]. intros ->. simpl in Hlen. lia.
  - rewrite (declared_length_prefix p pre suf Hp Hw) by lia.
    split.
    + intros ->. simpl in Hlen. lia.
    + intros Hs. destruct suf; [done|]. simpl in Hlen. lia.
Qed.

(** The fill loop reads a frame's wire bytes up to any point inside the
    frame, whatever follows in the buffer. *)
Lemma fill_loop_wire (p c suf : bytes) (f : APIFrame.t) (x : bytes) :
  Z.of_nat (length p) < 65536 ->
  APIFrame.raw_data f ++ c ++ suf = APIFrame.wire p ->
  fill_loop f (c ++ x)
  = fill_loop (APIFrame.mk (APIFrame.escaped f) (APIFrame.raw_data f ++ c)
                 (APIFrame.payload f)) x.
Proof.
  intros Hp. revert f. induction c as [|b c IH]; intros f Hw.
  - rewrite app_nil_r. by destruct f.
  - simpl app at 1. cbn [fill_loop].
    destruct (remaining_bytes_wire p (APIFrame.raw_data f) ((b :: c) ++ suf)
                f Hp eq_refl Hw) as [_ Hpos].
    change (remaining_bytes f) with (APIFrame.remaining_bytes f).
    destruct (Z.ltb_spec 0 (APIFrame.remaining_bytes f)) as [_|Hle];
      [|specialize (Hpos ltac:(done)); lia].
    change (fill f b) with (APIFrame.fill f b).
    rewrite IH.
    + simpl. by rewrite <- app_assoc.
    + simpl. rewrite <- app_assoc. exact Hw.
Qed.

Lemma parse_wire (p : bytes) (e : bool) (pl : bytes) :
  Z.of_nat (length p) < 65536 ->
  APIFrame.parse (APIFrame.mk e (APIFrame.wire p) pl)
  = Some (APIFrame.mk e (APIFrame.wire p) p).
Proof.
  intros Hp. unfold APIFrame.parse. simpl APIFrame.raw_data.
  rewrite (declared_length_prefix p (APIFrame.wire p) [] Hp)
    by (rewrite ?app_nil_r, ?length_wire; (done || lia)).
  rewrite Nat2Z.id.
  assert (drop 3 (APIFrame.wire p)
          = p ++ [intToByte (APIFrame.checksum p)]) as -> by done.
  rewrite take_app_length.
  assert (last (APIFrame.wire p) = Some (intToByte (APIFrame.checksum p)))
    as ->.
  { unfold APIFrame.wire. rewrite !app_comm_cons. apply last_snoc. }
  rewrite byteToInt_intToByte by apply checksum_range.
  by rewrite Z.eqb_refl.
Qed.

End APIFrameFacts.

(** * The driver over [APIFrame] *)

Section WireFrames.
Context {Info : Type} `{!Backend Info}.

Local Abbreviation xbee := (XBeeBase Info APIFrame.t).

Lemma hand_over_set_frame_data (self : xbee) (fr : option APIFrame.t)
    (d p : bytes) :
  hand_over (set_frame_data self fr d) p
  = (set_frame_data (hand_over self p).1 fr d, (hand_over self p).2).
Proof.
  destruct p; [done|]. apply deliver_set_frame_data.
Qed.

Lemma hand_over_deliveries (self : xbee) (p : bytes) :
  p <> [] -> deliveries (hand_over self p).2 = [_split_response p].
Proof.
  destruct p; [done|]. intros _. apply deliver_one.
Qed.

Lemma idle_eta (self : xbee) :
  _frame self = None -> _data self = [] -> set_frame_data self None [] = self.
Proof. destruct self. simpl. by intros -> ->. Qed.

(** Where the fill loop starts while a frame is being received. *)
Lemma resync_receiving (self : xbee) (pre y : bytes) :
  receiving pre self ->
  pre <> [] \/ head y = Some START_BYTE ->
  exists f0, resync self (_data self ++ y) = Some (f0, y) /\
             APIFrame.raw_data f0 = pre.
Proof.
  intros [Hd Hf] Hy. rewrite Hd. simpl. unfold resync.
  destruct (_frame self) as [f|].
  - exists f. by destruct Hf.
  - destruct Hy as [Hy|Hy]; [done|].
    destruct y as [|b y]; [done|]. injection Hy as ->.
    exists (APIFrame.init (_escaped self)). by subst.
Qed.

(** A chunk that ends inside the frame: no call is made, the bytes are in
    the assembler. *)
Lemma data_received_partial (self : xbee) (p pre c suf : bytes) :
  Z.of_nat (length p) < 65536 ->
  receiving pre self ->
  pre ++ c ++ suf = APIFrame.wire p ->
  suf <> [] ->
  exists fr, data_received self c = (set_frame_data self fr [], []) /\
             receiving (pre ++ c) (set_frame_data self fr []).
Proof.
  intros Hp Hrec Hw Hsuf.
  destruct (decide (pre = [] /\ c = [])) as [[-> ->]|Hne].
  - exists None. destruct Hrec as [Hd Hf].
    destruct (_frame self) as [f|] eqn:Hfr; [by destruct Hf|].
    unfold data_received, resync. rewrite Hd, Hfr. done.
  - assert (pre <> [] \/ head c = Some START_BYTE) as Hy.
    { destruct pre as [|x pre]; [right|by left].
      destruct c as [|b c]; [by destruct Hne|].
      simpl in Hw. unfold APIFrame.wire in Hw. by injection Hw as ->. }
    destruct (resync_receiving self pre c Hrec Hy) as (f0 & Hr & Hraw).
    rewrite (data_received_from self c f0 c Hr).
    assert (fill_loop f0 c
            = (APIFrame.mk (APIFrame.escaped f0) (pre ++ c)
                 (APIFrame.payload f0), [])) as ->.
    { rewrite <- (app_nil_r c) at 1.
      rewrite (fill_loop_wire p c suf f0 []) by (by rewrite ?Hraw).
      by rewrite Hraw. }
    simpl.
    destruct (remaining_bytes_wire p (pre ++ c) suf
                (APIFrame.mk (APIFrame.escaped f0) (pre ++ c)
                   (APIFrame.payload f0)) Hp eq_refl)
      as [_ Hpos]; [by rewrite <- app_assoc|].
    specialize (Hpos Hsuf).
    change (remaining_bytes ?f) with (APIFrame.remaining_bytes f).
    destruct (Z.eqb_spec
                (APIFrame.remaining_bytes
                   (APIFrame.mk (APIFrame.escaped f0) (pre ++ c)
                      (APIFrame.payload f0))) 0) as [Hz|_]; [lia|].
    eexists. split; [reflexivity|]. split; [done|]. simpl.
    split; [done|]. intros [-> ->]%app_eq_nil. by apply Hne.
Qed.

(** The chunk that brings the last wire byte of the frame: the payload is
    handed over and what follows the frame stays in the buffer. *)
Lemma data_received_final (self : xbee) (p pre suf rest : bytes) :
  Z.of_nat (length p) < 65536 ->
  receiving pre self ->
  pre ++ suf = APIFrame.wire p ->
  suf <> [] ->
  data_received self (suf ++ rest)
  = (set_frame_data (hand_over self p).1 None rest, (hand_over self p).2).
Proof.
  intros Hp Hrec Hw Hsuf.
  assert (pre <> [] \/ head (suf ++ rest) = Some START_BYTE) as Hy.
  { destruct pre as [|x pre]; [right|by left].
    destruct suf as [|b suf]; [done|].
    simpl in Hw. unfold APIFrame.wire in Hw. by injection Hw as ->. }
  destruct (resync_receiving self pre (suf ++ rest) Hrec Hy)
    as (f0 & Hr & Hraw).
  rewrite (data_received_from self (suf ++ rest) f0 (suf ++ rest) Hr).
  assert (fill_loop f0 (suf ++ rest)
          = (APIFrame.mk (APIFrame.escaped f0) (APIFrame.wire p)
               (APIFrame.payload f0), rest)) as ->.
  { rewrite (fill_loop_wire p suf [] f0 rest)
      by (by rewrite ?Hraw, ?app_nil_r).
    rewrite Hraw, Hw. apply fill_loop_stuck.
    destruct (remaining_bytes_wire p (APIFrame.wire p) []
                (APIFrame.mk (APIFrame.escaped f0) (APIFrame.wire p)
                   (APIFrame.payload f0)) Hp eq_refl (app_nil_r _))
      as [Hz _].
    change (remaining_bytes ?f) with (APIFrame.remaining_bytes f).
    rewrite Hz; [lia|done]. }
  simpl.
  destruct (remaining_bytes_wire p (APIFrame.wire p) []
              (APIFrame.mk (APIFrame.escaped f0) (APIFrame.wire p)
                 (APIFrame.payload f0)) Hp eq_refl (app_nil_r _))
    as [Hz _].
  change (remaining_bytes ?f) with (APIFrame.remaining_bytes f).
  rewrite Hz by done. simpl.
  unfold complete.
  change (parse ?f) with (APIFrame.parse f).
  rewrite (parse_wire p _ _ Hp). simpl.
  unfold hand_over. by destruct p.
Qed.

(** Empty chunks are not noticed by an idle driver with an empty buffer. *)
Lemma feed_quiet (self : xbee) (chunks : list bytes) :
  _frame self = None -> _data self = [] -> concat chunks = [] ->
  feed self chunks = (self, []).
Proof.
  intros Hf Hd. induction chunks as [|c cs IH]; [done|].
  simpl. intros [-> Hcs]%app_eq_nil.
  unfold data_received, resync. rewrite Hf, Hd. simpl.
  rewrite (idle_eta self Hf Hd), (IH Hcs). done.
Qed.

Lemma feed_receiving (p : bytes) (chunks : list bytes) :
  Z.of_nat (length p) < 65536 ->
  forall (pre : bytes) (self : xbee),
  receiving pre self ->
  pre ++ concat chunks = APIFrame.wire p ->
  concat chunks <> [] ->
  feed self chunks
  = (set_frame_data (hand_over self p).1 None [], (hand_over self p).2).
Proof.
  intros Hp. induction chunks as [|c cs IH]; intros pre self Hrec Hw Hne;
    [done|].
  simpl in Hw, Hne. simpl feed.
  destruct (decide (concat cs = [])) as [Hcs|Hcs].
  - rewrite Hcs, app_nil_r in Hw, Hne.
    rewrite <- (app_nil_r c) at 1.
    rewrite (data_received_final self p pre c [] Hp Hrec Hw Hne).
    rewrite feed_quiet by done. by rewrite app_nil_r.
  - destruct (data_received_partial self p pre c (concat cs) Hp Hrec Hw Hcs)
      as (fr & -> & Hrec').
    rewrite (IH (pre ++ c) _ Hrec') by (by rewrite <- ?app_assoc).
    rewrite hand_over_set_frame_data. done.
Qed.

(** C2.  A valid wire frame cut into chunks at any byte boundaries (in the
    length field, at the checksum byte, anywhere; empty chunks allowed) and
    delivered chunk by chunk to an idle driver leaves the driver in the
    same state and makes the same calls as the frame delivered whole: one
    hand-over of the frame's payload, on the same delivery path. *)
Theorem split_frame_reassembly (self : xbee) (p : bytes)
    (chunks : list bytes) :
  Z.of_nat (length p) < 65536 ->
  _frame self = None ->
  _data self = [] ->
  concat chunks = APIFrame.wire p ->
  feed self chunks = data_received self (APIFrame.wire p) /\
  data_received self (APIFrame.wire p) = hand_over self p /\
  (p <> [] -> deliveries (feed self chunks).2 = [_split_response p]).
Proof.
  intros Hp Hf Hd Hc.
  assert (receiving [] self) as Hrec.
  { split; [done|]. by rewrite Hf. }
  assert (set_frame_data (hand_over self p).1 None [] = (hand_over self p).1)
    as Heta.
  { apply idle_eta.
    - destruct p; [done|]. simpl. by rewrite (proj1 (deliver_frame_data _ _)).
    - destruct p; [done|]. simpl. by rewrite (proj2 (deliver_frame_data _ _)). }
  assert (feed self chunks = hand_over self p) as Hfeed.
  { rewrite (feed_receiving p chunks Hp [] self Hrec) by (by rewrite ?Hc).
    rewrite Heta. by destruct (hand_over self p). }
  assert (data_received self (APIFrame.wire p) = hand_over self p) as Hwhole.
  { rewrite <- (app_nil_r (APIFrame.wire p)) at 1.
    rewrite (data_received_final self p [] (APIFrame.wire p) [] Hp Hrec)
      by done.
    rewrite Heta. by destruct (hand_over self p). }
  split; [by rewrite Hfeed, Hwhole|]. split; [done|].
  intros Hne. rewrite Hfeed. by apply hand_over_deliveries.
Qed.

End WireFrames.

(** * Concrete runs *)

Section Scenarios.
Context {Info : Type} `{!Backend Info}.

Local Abbreviation xbee := (XBeeBase Info APIFrame.t).

(** C6.  In unescaped mode, from a new driver, the bytes
    [7E 00 02 23 41 9B] in one chunk give exactly one hand-over, of the
    frame with payload [23 41] (to the callback if one is registered, else
    to the backlog).  The prefix [7E 00 02 23] alone gives none; when
    [41 9B] follows, the same single frame is handed over.

    The frame is also where the consumer finds it.  After the hand-over the
    driver is idle with an empty buffer, and in pull mode the backlog holds
    the frame and nothing else, so that the next pull is answered with it;
    with a pull already outstanding, the frame resolves that pull's future
    and clears the waiter slot.  After the prefix alone the backlog is
    empty, no future exists, and the four bytes are in the assembler. *)
Theorem concrete_scenario (cb ecb : bool) :
  let s0 : xbee := __init__ false cb ecb in
  let info := _split_response [x23; x41] in
  let s1 := (data_received s0 [x7e; x00; x02; x23]).1 in
  (data_received s0 [x7e; x00; x02; x23; x41; x9b]).2
  = [if cb then ToCallback info else ToBacklog info] /\
  deliveries (data_received s0 [x7e; x00; x02; x23; x41; x9b]).2 = [info] /\
  (data_received s0 [x7e; x00; x02; x23]).2 = [] /\
  _queue s1 = [] /\
  data_received s1 [x41; x9b]
  = data_received s0 [x7e; x00; x02; x23; x41; x9b] /\
  deliveries (data_received s1 [x41; x9b]).2 = [info] /\
  (data_received s0 [x7e; x00; x02; x23; x41; x9b]).1
  = mkXBee false cb ecb None [] None (if cb then [] else [info]) [] /\
  (data_received s1 [x41; x9b]).1
  = mkXBee false cb ecb None [] None (if cb then [] else [info]) [] /\
  s1 = mkXBee false cb ecb
         (Some (APIFrame.mk false [x7e; x00; x02; x23] [])) [] None [] [] /\
  (let after := (data_received s0 [x7e; x00; x02; x23; x41; x9b]).1 in
   futures (wait_read_frame after).1
   = [if cb then Pending else Finished info] /\
   _queue (wait_read_frame after).1 = []) /\
  (let waiting := (wait_read_frame s0).1 in
   let after := (data_received waiting [x7e; x00; x02; x23; x41; x9b]).1 in
   (data_received waiting [x7e; x00; x02; x23; x41; x9b]).2
   = [if cb then ToCallback info else ToWaiter 0 info] /\
   futures after = [if cb then Pending else Finished info] /\
   _future after = (if cb then Some 0%nat else None) /\
   _queue after = []).
Proof.
  destruct cb, ecb; vm_compute; repeat split; reflexivity.
Qed.

(** C1 on the code.  Three valid frames in one chunk, no callback: the
    call hands the first frame to the backlog and leaves the two others in
    the buffer.  Of three pulls that follow, the first gets frame one; the
    second and the third get futures that are still pending.  The second
    frame is handed over only by a further call of [data_received], be it
    with an empty chunk. *)
Theorem back_to_back_frames_first_only :
  let w1 := [x7e; x00; x01; x01; xfe] in
  let w2 := [x7e; x00; x01; x02; xfd] in
  let w3 := [x7e; x00; x01; x03; xfc] in
  let s0 : xbee := __init__ false false false in
  let s1 := (data_received s0 (w1 ++ w2 ++ w3)).1 in
  let s2 := (wait_read_frame s1).1 in
  let s3 := (wait_read_frame s2).1 in
  let s4 := (wait_read_frame s3).1 in
  (data_received s0 (w1 ++ w2 ++ w3)).2 = [ToBacklog (_split_response [x01])] /\
  _data s1 = w2 ++ w3 /\
  futures s4 !! (wait_read_frame s1).2
  = Some (Finished (_split_response [x01])) /\
  futures s4 !! (wait_read_frame s2).2 = Some Pending /\
  futures s4 !! (wait_read_frame s3).2 = Some Pending /\
  (data_received s1 []).2 = [ToBacklog (_split_response [x02])].
Proof.
  vm_compute. repeat split; reflexivity.
Qed.

(** C3 on the code.  Push callback and error callback registered, a frame
    with a wrong checksum: nothing is delivered and the frame is dropped,
    but the only call made is [print]; the error callback is not called. *)
Theorem bad_checksum_only_printed :
  let s0 : xbee := __init__ false true true in
  data_received s0 [x7e; x00; x02; x23; x41; x00]
  = (s0, [ToStdout "Bad frame checksum"%string]).
Proof.
  vm_compute. reflexivity.
Qed.

End Scenarios.

(** With several frames in one chunk, the call hands over the first and
    keeps the wire bytes of the others in the buffer. *)
Lemma data_received_first_of_many {Info : Type} `{!Backend Info}
    (self : XBeeBase Info APIFrame.t) (p : bytes) (rest : bytes) :
  Z.of_nat (length p) < 65536 ->
  _frame self = None ->
  _data self = [] ->
  data_received self (APIFrame.wire p ++ rest)
  = (set_frame_data (hand_over self p).1 None rest, (hand_over self p).2).
Proof.
  intros Hp Hf Hd. apply (data_received_final self p []); try done.
  split; [done|]. by rewrite Hf.
Qed.

(** * Runs that decide the claims the code does not meet *)

Section Counterexamples.

Local Abbreviation xbee := (XBeeBase (bytes * bytes) APIFrame.t).
Local Abbreviation fresh := (__init__ false false false : xbee).

(** C5 as stated fails.  A pull is outstanding, then [halt]: the waiter's
    future is still pending and still in the slot, and the next pull is
    accepted like any other (it gets a new pending future). *)
Lemma halt_does_not_release_waiter :
  let s1 : xbee := (wait_read_frame fresh).1 in
  (wait_read_frame fresh).2 = 0%nat /\
  futures (halt s1) !! 0%nat = Some Pending /\
  _future (halt s1) = Some 0%nat /\
  (wait_read_frame (halt s1)).2 = 1%nat /\
  futures (wait_read_frame (halt s1)).1 !! 1%nat = Some Pending /\
  _future (wait_read_frame (halt s1)).1 = Some 1%nat.
Proof. vm_compute. repeat split; reflexivity. Qed.

(** C7 as stated fails.  Escaped mode; on the wire the payload [11] is
    [7E 00 01 7D 31 EE].  Decoded as the spec describes, the assembler
    would see [7E 00 01 11 EE].  [data_received] passes the raw bytes
    [7E 00 01 7D 31] to [fill], escape marker included. *)
Lemma escape_marker_reaches_fill :
  let s0 : xbee := __init__ true false false in
  let raw := [x7e; x00; x01; x7d; x31; xee] in
  resync s0 (_data s0 ++ raw) = Some (new_frame true, raw) /\
  fed (new_frame true : APIFrame.t) raw = [x7e; x00; x01; x7d; x31] /\
  APIFrame.unescape raw = [x7e; x00; x01; x11; xee] /\
  ~ fed (new_frame true : APIFrame.t) raw `prefix_of` APIFrame.unescape raw /\
  In APIFrame.ESCAPE_BYTE (fed (new_frame true : APIFrame.t) raw).
Proof.
  vm_compute. repeat split; try reflexivity.
  - intros [k Hk]. discriminate Hk.
  - do 3 right. by left.
Qed.

(** C8 as stated fails.  Pull mode, one pull outstanding (future 0).  The
    second pull raises nothing: it returns future 1 and takes the slot.
    The frame that arrives next resolves future 1; future 0, the first
    waiter's, stays pending. *)
Lemma second_wait_is_accepted :
  let s1 : xbee := (wait_read_frame fresh).1 in
  let s2 := (wait_read_frame s1).1 in
  let s3 := (data_received s2 [x7e; x00; x02; x23; x41; x9b]).1 in
  _future s1 = Some 0%nat /\
  (wait_read_frame s1).2 = 1%nat /\
  _future s2 = Some 1%nat /\
  (data_received s2 [x7e; x00; x02; x23; x41; x9b]).2
  = [ToWaiter 1 ([x23], [x41])] /\
  futures s3 = [Pending; Finished ([x23], [x41])].
Proof. vm_compute. repeat split; reflexivity. Qed.

End Counterexamples.

(** * Instances of the theorems above *)

Section Witnesses.

Local Abbreviation xbee := (XBeeBase (bytes * bytes) APIFrame.t).
Local Abbreviation fresh := (__init__ false false false : xbee).

(** A frame cut in the length field and before the checksum byte. *)
Lemma split_frame_reassembly_witness :
  let chunks := [[x7e; x00]; [x02; x23; x41]; [x9b]] in
  Z.of_nat (length [x23; x41]) < 65536 /\
  _frame fresh = None /\
  _data fresh = [] /\
  concat chunks = APIFrame.wire [x23; x41] /\
  feed fresh chunks = data_received fresh (APIFrame.wire [x23; x41]) /\
  data_received fresh (APIFrame.wire [x23; x41]) = hand_over fresh [x23; x41] /\
  ([x23; x41] <> [] ->
   deliveries (feed fresh chunks).2 = [_split_response [x23; x41]]).
Proof.
  do 4 (split; [reflexivity|]).
  apply (split_frame_reassembly fresh [x23; x41]
           [[x7e; x00]; [x02; x23; x41]; [x9b]]); reflexivity.
Defined.

(** The frame [7E 00 00 FF]: valid, empty payload. *)
Lemma empty_payload_not_delivered_witness :
  let chunk := [x7e; x00; x00; xff] in
  let f := APIFrame.mk false chunk [] in
  assembled fresh chunk = Some (f, []) /\
  remaining_bytes f = 0 /\
  parse f = Some f /\
  data f = [] /\
  data_received fresh chunk = (set_frame_data fresh None [], []) /\
  _frame (data_received fresh chunk).1 = None /\
  _future (data_received fresh chunk).1 = _future fresh /\
  _queue (data_received fresh chunk).1 = _queue fresh /\
  futures (data_received fresh chunk).1 = futures fresh.
Proof.
  do 4 (split; [reflexivity|]).
  apply (empty_payload_not_delivered fresh [x7e; x00; x00; xff]
           (APIFrame.mk false [x7e; x00; x00; xff] [])
           (APIFrame.mk false [x7e; x00; x00; xff] []) []); reflexivity.
Defined.

(** Escaped mode, a buffer with an escape marker in it. *)
Lemma data_received_feeds_raw_bytes_witness :
  let s0 : xbee := __init__ true false false in
  let raw := [x7e; x00; x01; x7d; x31; xee] in
  let f0 : APIFrame.t := new_frame true in
  resync s0 (_data s0 ++ raw) = Some (f0, raw) /\
  f0 = default (new_frame (_escaped s0)) (_frame s0) /\
  raw `suffix_of` (_data s0 ++ raw) /\
  fed f0 raw `prefix_of` raw /\
  assembled s0 raw
  = Some (foldl fill f0 (fed f0 raw), drop (length (fed f0 raw)) raw).
Proof.
  split; [reflexivity|].
  apply (data_received_feeds_raw_bytes (__init__ true false false : xbee)
           [x7e; x00; x01; x7d; x31; xee] (new_frame true)
           [x7e; x00; x01; x7d; x31; xee]); reflexivity.
Defined.

(** [halt] with one pull outstanding. *)
Lemma halt_leaves_channel_unchanged_witness :
  let s1 : xbee := (wait_read_frame fresh).1 in
  _future s1 = Some 0%nat /\
  futures s1 !! 0%nat = Some Pending /\
  _future (halt s1) = Some 0%nat /\
  futures (halt s1) !! 0%nat = Some Pending /\
  wait_read_frame (halt s1) = wait_read_frame s1 /\
  (forall chunk, data_received (halt s1) chunk = data_received s1 chunk) /\
  halt (halt s1) = halt s1.
Proof.
  do 2 (split; [reflexivity|]).
  apply (halt_leaves_channel_unchanged (wait_read_frame fresh).1 0);
    reflexivity.
Defined.

(** Two pulls, then the frame [7E 00 02 23 41 9B]. *)
Lemma second_wait_replaces_waiter_witness :
  let s1 : xbee := (wait_read_frame fresh).1 in
  let chunk := [x7e; x00; x02; x23; x41; x9b] in
  let f := APIFrame.mk false chunk [] in
  let f' := APIFrame.mk false chunk [x23; x41] in
  let s2 := (wait_read_frame s1).1 in
  let w2 := (wait_read_frame s1).2 in
  let s3 := (data_received s2 chunk).1 in
  _callback s1 = false /\
  _future s1 = Some 0%nat /\
  futures s1 !! 0%nat = Some Pending /\
  _queue s1 = [] /\
  assembled s2 chunk = Some (f, []) /\
  remaining_bytes f = 0 /\
  parse f = Some f' /\
  data f' <> [] /\
  w2 <> 0%nat /\
  _future s2 = Some w2 /\
  futures s2 !! w2 = Some Pending /\
  futures s2 !! 0%nat = Some Pending /\
  (data_received s2 chunk).2 = [ToWaiter w2 (_split_response (data f'))] /\
  futures s3 !! w2 = Some (Finished (_split_response (data f'))) /\
  futures s3 !! 0%nat = Some Pending /\
  _future s3 = None.
Proof.
  do 7 (split; [reflexivity|]). split; [discriminate|].
  apply (second_wait_replaces_waiter (wait_read_frame fresh).1 0
           [x7e; x00; x02; x23; x41; x9b]
           (APIFrame.mk false [x7e; x00; x02; x23; x41; x9b] [])
           (APIFrame.mk false [x7e; x00; x02; x23; x41; x9b] [x23; x41]) []);
    (reflexivity || discriminate).
Defined.

End Witnesses.

(** * Further properties of the driver, for every frame assembler *)

Section Resynchronisation.
Context {Info : Type} `{!Backend Info}.
Context {F : Type} `{!Assembler F}.

Local Abbreviation xbee := (XBeeBase Info F).


Lemma find_start_after_noise (noise y : bytes) :
  find_start noise = None ->
  find_start (noise ++ START_BYTE :: y) = Some (START_BYTE :: y).
Proof.
  induction noise as [|x a IH]; simpl; [done|].
  destruct (Byte.eqb x START_BYTE); [done|apply IH].
Qed.

Lemma set_frame_data_eta (self : xbee) :
  set_frame_data self (_frame self) (_data self) = self.
Proof. by destruct self. Qed.

(** X1.  With no frame in progress, the bytes that precede the first
    start byte are thrown away, those buffered by earlier calls included:
    the call behaves as if the buffer had been empty and the chunk had
    begun at the start byte. *)
Theorem data_received_skips_noise (self : xbee) (noise y : bytes) :
  _frame self = None ->
  find_start (_data self ++ noise) = None ->
  data_received self (noise ++ START_BYTE :: y)
  = data_received (set_frame_data self None []) (START_BYTE :: y).
Proof.
  intros Hf Hn.
  rewrite (data_received_from self _ (new_frame (_escaped self))
             (START_BYTE :: y)).
  - rewrite (data_received_from (set_frame_data self None []) _
               (new_frame (_escaped self)) (START_BYTE :: y)).
    + rewrite complete_set_frame_data.
      by destruct (remaining_bytes _ =? 0).
    + reflexivity.
  - unfold resync. rewrite Hf, app_assoc.
    by rewrite (find_start_after_noise _ y Hn).
Qed.


(** X3.  A frame in progress whose [remaining_bytes] is negative is never
    completed and never dropped: every later chunk is appended to the
    buffer, no byte reaches [fill], and nothing is delivered or logged. *)
Theorem negative_remaining_stalls (chunks : list bytes) (self : xbee) (f : F) :
  _frame self = Some f ->
  remaining_bytes f < 0 ->
  feed self chunks
  = (set_frame_data self (Some f) (_data self ++ concat chunks), []).
Proof.
  revert self. induction chunks as [|c cs IH]; intros self Hf Hr.
  - simpl. rewrite app_nil_r, <- Hf. by rewrite set_frame_data_eta.
  - simpl. unfold data_received at 1. unfold resync. rewrite Hf.
    rewrite fill_loop_stuck by lia.
    destruct (Z.eqb_spec (remaining_bytes f) 0) as [Hz|_]; [lia|].
    rewrite (IH (set_frame_data self (Some f) (_data self ++ c))) by done.
    simpl. by rewrite <- app_assoc.
Qed.

(** X4.  After a call of [data_received], the driver is idle with a start
    byte in its buffer only if a frame was completed in that call:
    otherwise either a frame is in progress or the buffer holds no start
    byte. *)
Theorem idle_buffer_after_call (self : xbee) (chunk : bytes) :
  is_Some (_frame (data_received self chunk).1) \/
  completes self chunk = true \/
  find_start (_data (data_received self chunk).1) = None.
Proof.
  unfold completes, assembled, data_received.
  destruct (resync self (_data self ++ chunk)) as [[f0 buf0]|] eqn:Hr.
  - destruct (fill_loop f0 buf0) as [f rest].
    destruct (remaining_bytes f =? 0); [by right; left|by left; eexists].
  - right. right. simpl. unfold resync in Hr.
    destruct (_frame self); [done|].
    by destruct (find_start (_data self ++ chunk)).
Qed.

(** X5.  A completed frame that validates and has a non-empty payload is
    handed over exactly once, on one path: to the callback if one is
    registered; else to the waiter, whose future gets the frame and whose
    slot is cleared; else to the end of the backlog.  The frame in
    progress is reset and the unread bytes stay buffered. *)
Theorem valid_frame_handed_over (self : xbee) (chunk : bytes) (f f' : F)
    (rest : bytes) :
  assembled self chunk = Some (f, rest) ->
  remaining_bytes f = 0 ->
  parse f = Some f' ->
  data f' <> [] ->
  let info := _split_response (data f') in
  let self' := (data_received self chunk).1 in
  deliveries (data_received self chunk).2 = [info] /\
  _frame self' = None /\ _data self' = rest /\
  (data_received self chunk).2
  = (if _callback self then [ToCallback info]
     else match _future self with
          | Some fut => [ToWaiter fut info]
          | None => [ToBacklog info]
          end) /\
  _queue self'
  = (if _callback self then _queue self
     else match _future self with
          | Some _ => _queue self
          | None => _queue self ++ [info]
          end) /\
  futures self'
  = (if _callback self then futures self
     else match _future self with
          | Some fut => <[fut := Finished info]> (futures self)
          | None => futures self
          end) /\
  _future self' = (if _callback self then _future self else None).
Proof.
  intros Ha Hr Hp Hd. simpl.
  rewrite (data_received_completion self chunk f rest Ha Hr).
  unfold complete. rewrite Hp. destruct (data f') as [|b p]; [done|].
  unfold deliver. destruct (_callback self); [done|].
  destruct (_future self); done.
Qed.

End Resynchronisation.

Section Channel.
Context {Info : Type} `{!Backend Info}.
Context {F : Type} `{!Assembler F}.

Local Abbreviation xbee := (XBeeBase Info F).
Local Abbreviation log := (list (event Info)).

Lemma trace_run (cs : list call) (self : xbee) :
  (trace self cs).1 = run self cs.
Proof.
  revert self. induction cs as [|c cs IH]; intros self; [done|].
  assert ((step_log self c).1 = step self c) as Hs
    by (destruct c; reflexivity).
  change (run self (c :: cs)) with (run (step self c) cs).
  rewrite <- Hs, <- IH. simpl.
  destruct (step_log self c) as [s1 l1]. simpl.
  by destruct (trace s1 cs).
Qed.

(** Either the call leaves the channel alone, or it ends in [complete]. *)
Lemma data_received_cases (self : xbee) (chunk : bytes) :
  (exists fr d, data_received self chunk = (set_frame_data self fr d, [])) \/
  (exists f d, data_received self chunk
               = (set_frame_data (complete self f).1 None d,
                  (complete self f).2)).
Proof.
  unfold data_received.
  destruct (resync self (_data self ++ chunk)) as [[f0 buf0]|];
    [|left; by eexists _, _].
  destruct (fill_loop f0 buf0) as [f rest].
  destruct (remaining_bytes f =? 0); [|left; by eexists _, _].
  right. exists f, rest. by destruct (complete self f).
Qed.

(** *** Pull mode: nothing lost, nothing twice, nothing out of order *)

Lemma results_app (a b : list (future Info)) :
  results (a ++ b) = results a ++ results b.
Proof. apply omap_app. Qed.

Lemma deliveries_app (a b : log) :
  deliveries (a ++ b) = deliveries a ++ deliveries b.
Proof. apply omap_app. Qed.

Lemma complete_pull_accounting (self : xbee) (f : F) (l : log) :
  pull_accounting self l ->
  pull_accounting (complete self f).1 (l ++ (complete self f).2).
Proof.
  intros (Hcb & Hex & Hlast & Hacc). unfold complete.
  destruct (parse f) as [f'|]; cycle 1.
  { repeat (split; [done|]). simpl.
    rewrite deliveries_app. simpl. by rewrite app_nil_r. }
  destruct (data f').
  { repeat (split; [done|]). simpl. by rewrite app_nil_r. }
  unfold deliver. rewrite Hcb.
  destruct (_future self) as [w|] eqn:Hw.
  - destruct (Hlast w Hw) as (store & Hst & Hlen).
    assert (_queue self = []) as Hq by (apply Hex; by eexists).
    split; [done|]. split; [by intros [? [=]]|]. split; [by intros ? [=]|].
    simpl. rewrite deliveries_app, Hacc, Hq, Hst. simpl.
    rewrite <- Hlen, insert_app_r_alt, Nat.sub_diag by lia. simpl.
    by rewrite !results_app, !app_nil_r.
  - split; [done|]. split; [by intros [? [=]]|]. split; [by intros ? [=]|].
    simpl. rewrite deliveries_app, Hacc. simpl. by rewrite app_assoc.
Qed.

Lemma step_pull_accounting (self : xbee) (c : call) (l : log) :
  pull_accounting self l ->
  pull_accounting (step_log self c).1 (l ++ (step_log self c).2).
Proof.
  intros Hinv. destruct c as [chunk| |]; simpl.
  - destruct (data_received_cases self chunk)
      as [(fr & d & ->)|(f & d & ->)]; simpl.
    + by rewrite app_nil_r.
    + apply (complete_pull_accounting self f l Hinv).
  - rewrite app_nil_r. destruct Hinv as (Hcb & Hex & Hlast & Hacc).
    unfold wait_read_frame. destruct (_queue self) as [|i q] eqn:Hq.
    + split; [done|]. split; [done|]. split.
      * intros w [= <-]. by exists (futures self).
      * simpl. rewrite results_app, Hacc. simpl. by rewrite !app_nil_r.
    + assert (_future self = None) as Hn.
      { destruct (_future self) eqn:E; [|done].
        unfold waiter_excludes_backlog in Hex. rewrite E, Hq in Hex.
        by specialize (Hex ltac:(by eexists)). }
      split; [done|]. split; [simpl; rewrite Hn; by intros [? [=]]|].
      split; [simpl; rewrite Hn; by intros ? [=]|].
      simpl. rewrite results_app, Hacc. simpl. by rewrite <- app_assoc.
  - rewrite app_nil_r, halt_id. done.
Qed.

Lemma trace_pull_accounting (cs : list call) (self : xbee) (l : log) :
  pull_accounting self l ->
  pull_accounting (trace self cs).1 (l ++ (trace self cs).2).
Proof.
  revert self l. induction cs as [|c cs IH]; intros self l Hinv.
  - simpl. by rewrite app_nil_r.
  - simpl. pose proof (step_pull_accounting self c l Hinv) as Hstep.
    destruct (step_log self c) as [s1 l1]. simpl in Hstep.
    pose proof (IH s1 (l ++ l1) Hstep) as Hrest.
    destruct (trace s1 cs) as [s2 l2]. simpl in *. by rewrite app_assoc.
Qed.

(** X6.  Pull mode, any interleaving of [data_received], [wait_read_frame]
    and [halt] from a new driver: the frames handed over, in the order of
    their hand-over, are exactly the results of the pulls that have been
    answered, in the order the pulls were made, followed by the backlog.
    No frame is lost, duplicated or reordered between the hand-over and
    the consumers. *)
Theorem pull_mode_fifo (escaped ecb : bool) (cs : list call) :
  deliveries (trace (__init__ escaped false ecb : xbee) cs).2
  = results (futures (trace (__init__ escaped false ecb : xbee) cs).1)
    ++ _queue (trace (__init__ escaped false ecb : xbee) cs).1.
Proof.
  assert (pull_accounting (__init__ escaped false ecb : xbee) []) as Hinit.
  { split; [done|]. split; [by intros [? [=]]|]. split; [by intros ? [=]|].
    done. }
  pose proof (trace_pull_accounting cs _ _ Hinit) as (_ & _ & _ & Hacc).
  exact Hacc.
Qed.

End Channel.

Section Consumers.
Context {Info : Type} `{!Backend Info}.
Context {F : Type} `{!Assembler F}.

Local Abbreviation xbee := (XBeeBase Info F).
Local Abbreviation log := (list (event Info)).

(** *** Push mode *)

Lemma step_push_mode (self : xbee) (c : call) :
  _callback self = true ->
  _queue self = [] ->
  results (futures self) = [] ->
  _callback (step_log self c).1 = true /\
  _queue (step_log self c).1 = [] /\
  results (futures (step_log self c).1) = [] /\
  Forall (fun e => match e with
                   | ToWaiter _ _ | ToBacklog _ => False
                   | _ => True
                   end) (step_log self c).2.
Proof.
  intros Hcb Hq Hres. destruct c as [chunk| |]; simpl.
  - destruct (data_received_cases self chunk)
      as [(fr & d & ->)|(f & d & ->)]; simpl; [done|].
    unfold complete. destruct (parse f) as [f'|]; simpl;
      [|repeat (split; [done|]); by repeat constructor].
    destruct (data f'); simpl; [done|].
    unfold deliver. rewrite Hcb. simpl.
    repeat (split; [done|]). by repeat constructor.
  - unfold wait_read_frame. rewrite Hq. simpl.
    repeat (split; [done|]). split; [|done].
    unfold results. rewrite omap_app. fold (results (futures self)).
    by rewrite Hres.
  - by rewrite halt_id.
Qed.

(** X7.  Push mode, any interleaving from a new driver: every frame goes to
    the callback; the backlog stays empty and no future is ever resolved,
    so a [wait_read_frame] made in push mode is never answered. *)
Theorem push_mode_never_answers_pulls (escaped ecb : bool) (cs : list call) :
  _queue (trace (__init__ escaped true ecb : xbee) cs).1 = [] /\
  results (futures (trace (__init__ escaped true ecb : xbee) cs).1) = [] /\
  Forall (fun e => match e with
                   | ToWaiter _ _ | ToBacklog _ => False
                   | _ => True
                   end) (trace (__init__ escaped true ecb : xbee) cs).2.
Proof.
  assert (forall self : xbee,
            _callback self = true -> _queue self = [] ->
            results (futures self) = [] ->
            _queue (trace self cs).1 = [] /\
            results (futures (trace self cs).1) = [] /\
            Forall (fun e => match e with
                             | ToWaiter _ _ | ToBacklog _ => False
                             | _ => True
                             end) (trace self cs).2) as Hall.
  { induction cs as [|c cs IH]; intros self Hcb Hq Hres; [done|].
    simpl. destruct (step_push_mode self c Hcb Hq Hres)
      as (Hcb1 & Hq1 & Hres1 & Hl1).
    destruct (step_log self c) as [s1 l1]. simpl in *.
    destruct (IH s1 Hcb1 Hq1 Hres1) as (Hq2 & Hres2 & Hl2).
    destruct (trace s1 cs) as [s2 l2]. simpl in *.
    repeat (split; [done|]). by apply Forall_app. }
  by apply Hall.
Qed.

(** *** Results are final *)

Lemma step_keeps_result (self : xbee) (c : call) (fut : nat) (info : Info) :
  waiter_pending self ->
  futures self !! fut = Some (Finished info) ->
  futures (step self c) !! fut = Some (Finished info).
Proof.
  intros Hwp Hfut. destruct c as [chunk| |]; simpl.
  - destruct (data_received_cases self chunk)
      as [(fr & d & ->)|(f & d & ->)]; simpl; [done|].
    unfold complete. destruct (parse f) as [f'|]; [|done].
    destruct (data f'); [done|].
    unfold deliver. destruct (_callback self); [done|].
    destruct (_future self) as [w|] eqn:Hw; [|done]. simpl.
    rewrite list_lookup_insert_ne; [done|].
    intros ->. rewrite (Hwp fut Hw) in Hfut. discriminate.
  - unfold wait_read_frame.
    destruct (_queue self); simpl;
      by rewrite lookup_app_l by (by eapply lookup_lt_Some).
  - by rewrite halt_id.
Qed.

(** X8.  Once a pull has its frame, the frame stays: whatever calls
    follow, a future that is resolved keeps its result.  ([set_result] is
    only ever applied to the pending future of the waiter.) *)
Theorem pull_result_is_final (escaped cb ecb : bool) (cs cs' : list call)
    (fut : nat) (info : Info) :
  futures (run (__init__ escaped cb ecb : xbee) cs) !! fut
  = Some (Finished info) ->
  futures (run (__init__ escaped cb ecb : xbee) (cs ++ cs')) !! fut
  = Some (Finished info).
Proof.
  unfold run at 2. rewrite foldl_app.
  fold (run (__init__ escaped cb ecb : xbee) cs).
  pose proof (run_waiter_pending escaped cb ecb cs) as Hwp.
  revert Hwp. generalize (run (__init__ escaped cb ecb : xbee) cs).
  induction cs' as [|c cs' IH]; intros self Hwp Hfut; [done|].
  simpl. apply IH.
  - by apply step_waiter_pending.
  - by apply step_keeps_result.
Qed.

(** *** Draining the backlog *)

Lemma pulls_drain (q : list Info) (self : xbee) :
  _queue self = q ->
  (pulls (length q) self).2 = seq (length (futures self)) (length q) /\
  futures (pulls (length q) self).1 = futures self ++ map Finished q /\
  _queue (pulls (length q) self).1 = [] /\
  _future (pulls (length q) self).1 = _future self.
Proof.
  revert self. induction q as [|i q IH]; intros self Hq.
  - simpl. by rewrite app_nil_r.
  - simpl. unfold wait_read_frame at 1 2 3 4. rewrite Hq.
    specialize (IH (mkXBee (_escaped self) (_callback self)
                      (_error_callback self) (_frame self) (_data self)
                      (_future self) q (futures self ++ [Finished i]))
                  eq_refl).
    simpl in IH. rewrite length_app in IH. simpl in IH.
    destruct IH as (H1 & H2 & H3 & H4).
    destruct (pulls (length q) _) as [s2 futs]. simpl in *.
    rewrite H1, H2, <- app_assoc. simpl.
    by rewrite Nat.add_1_r.
Qed.

(** X9.  As many pulls as the backlog has entries empty it, oldest first:
    each pull gets a new future that is already resolved, the k-th with
    the k-th entry; no existing future is touched and the waiter slot is
    left as it was. *)
Theorem pulls_drain_backlog_in_order (self : xbee) :
  let n := length (_queue self) in
  (pulls n self).2 = seq (length (futures self)) n /\
  futures (pulls n self).1 = futures self ++ map Finished (_queue self) /\
  _queue (pulls n self).1 = [] /\
  _future (pulls n self).1 = _future self.
Proof. by apply pulls_drain. Qed.

(** *** The transport hooks *)

(** X10.  [connection_lost], [pause_writing] and [resume_writing] change
    nothing in the driver: a run with hooks among the calls ends in the
    state of the run without them.  A lost connection in particular halts
    nothing: a waiter that is outstanding stays in its slot, pending. *)
Theorem hooks_leave_driver_unchanged (self : xbee)
    (cs : list transport_call) :
  transport_run self cs = run self (omap entry cs).
Proof.
  revert self. induction cs as [|c cs IH]; intros self; [done|].
  destruct c; simpl; apply IH.
Qed.

End Consumers.

Section Boundaries.
Context {Info : Type} `{!Backend Info}.
Context {F : Type} `{!Assembler F}.

Local Abbreviation xbee := (XBeeBase Info F).

(** X11.  A chunk boundary cannot be observed as long as no frame is
    completed before it: when the call for [a] completes no frame, it logs
    nothing, and delivering [b] next gives the state and the log of
    delivering [a ++ b] at once. *)
Theorem chunk_boundary_unobservable (self : xbee) (a b : bytes) :
  completes self a = false ->
  (data_received self a).2 = [] /\
  data_received (data_received self a).1 b = data_received self (a ++ b).
Proof. apply data_received_app. Qed.

(** X12.  A completed frame that fails validation is dropped whole: the
    call hands nothing over, leaves waiter, backlog and futures as they
    were, resets the frame in progress, keeps the unread bytes, and logs
    the one line [Bad frame checksum]. *)
Theorem failed_parse_drops_frame (self : xbee) (chunk : bytes) (f : F)
    (rest : bytes) :
  assembled self chunk = Some (f, rest) ->
  remaining_bytes f = 0 ->
  parse f = None ->
  data_received self chunk
  = (set_frame_data self None rest, [ToStdout "Bad frame checksum"%string]) /\
  deliveries (data_received self chunk).2 = [] /\
  _future (data_received self chunk).1 = _future self /\
  _queue (data_received self chunk).1 = _queue self /\
  futures (data_received self chunk).1 = futures self.
Proof.
  intros Ha Hr Hp.
  by rewrite (bad_checksum_not_delivered self chunk f rest Ha Hr Hp).
Qed.

(** X13.  In every state a new driver reaches, the future in the waiter
    slot is pending: [set_result] at line 111 never meets a future that
    is already resolved. *)
Theorem waiter_future_is_pending (escaped cb ecb : bool) (cs : list call)
    (fut : nat) :
  _future (run (__init__ escaped cb ecb : xbee) cs) = Some fut ->
  futures (run (__init__ escaped cb ecb : xbee) cs) !! fut = Some Pending.
Proof. apply run_waiter_pending. Qed.

End Boundaries.

Section Scanning.
Context {Info : Type} `{!Backend Info}.
Context {F : Type} `{!Assembler F}.

Local Abbreviation xbee := (XBeeBase Info F).

(** X14.  The scan of lines 88-92 cuts the buffer at the first start
    byte: what it keeps begins with a start byte and what it drops holds
    none; it finds nothing exactly when the buffer holds no start byte. *)
Theorem find_start_first_occurrence (d : bytes) :
  match find_start d with
  | Some d' =>
      exists noise t, d = noise ++ d' /\ d' = START_BYTE :: t /\
                      START_BYTE ∉ noise
  | None => START_BYTE ∉ d
  end.
Proof.
  induction d as [|b d IH]; simpl; [apply not_elem_of_nil|].
  destruct (Byte.eqb b START_BYTE) eqn:E.
  - apply byte_dec_bl in E as ->.
    exists [], d. split; [done|]. split; [done|]. apply not_elem_of_nil.
  - apply Byte.eqb_false in E.
    destruct (find_start d) as [d'|].
    + destruct IH as (noise & t & -> & -> & Hn).
      exists (b :: noise), t. split; [done|]. split; [done|].
      apply not_elem_of_cons. split; [congruence|done].
    + apply not_elem_of_cons. split; [congruence|done].
Qed.

Lemma fill_loop_exit (f : F) (d : bytes) :
  (fill_loop f d).2 = [] \/ remaining_bytes (fill_loop f d).1 <= 0.
Proof.
  revert f. induction d as [|b t IH]; intros f; simpl; [by left|].
  destruct (Z.ltb_spec 0 (remaining_bytes f)); [apply IH|by right].
Qed.

(** X15.  When a call of [data_received] ends with a frame in progress,
    that frame is not complete, and if it still wants bytes the buffer is
    empty: bytes wait in the buffer only while no frame is in progress or
    behind a frame that will take no more. *)
Theorem frame_in_progress_has_read_all (self : xbee) (chunk : bytes) (f : F) :
  _frame (data_received self chunk).1 = Some f ->
  remaining_bytes f <> 0 /\
  (0 < remaining_bytes f -> _data (data_received self chunk).1 = []).
Proof.
  unfold data_received.
  destruct (resync self (_data self ++ chunk)) as [[f0 buf0]|]; [|done].
  pose proof (fill_loop_exit f0 buf0) as Hexit.
  destruct (fill_loop f0 buf0) as [f1 rest]. simpl in Hexit.
  destruct (Z.eqb_spec (remaining_bytes f1) 0) as [Hz|Hnz].
  - by destruct (complete self f1).
  - simpl. intros [= <-]. split; [done|]. intros Hpos.
    destruct Hexit as [Hr|Hr]; [done|lia].
Qed.

(** X16.  No call changes how the driver was set up: the escaped-mode
    flag and the two callbacks are, after any run, those given to
    [__init__]; push or pull mode is fixed for the driver's lifetime. *)
Theorem configuration_is_fixed (self : xbee) (cs : list call) :
  _escaped (run self cs) = _escaped self /\
  _callback (run self cs) = _callback self /\
  _error_callback (run self cs) = _error_callback self.
Proof.
  revert self. induction cs as [|c cs IH]; intros self; [done|].
  change (run self (c :: cs)) with (run (step self c) cs).
  destruct (IH (step self c)) as (-> & -> & ->).
  destruct c as [chunk| |]; simpl.
  - destruct (data_received_cases self chunk)
      as [(fr & d & ->)|(f & d & ->)]; simpl; [done|].
    unfold complete. destruct (parse f) as [f'|]; [|done].
    destruct (data f'); [done|].
    unfold deliver. destruct (_callback self) eqn:E; [simpl; by rewrite E|].
    destruct (_future self); done.
  - unfold wait_read_frame. by destruct (_queue self).
  - by rewrite halt_id.
Qed.

End Scanning.

(** * Instances of the further properties *)

Section MoreWitnesses.

Local Abbreviation xbee := (XBeeBase (bytes * bytes) APIFrame.t).
Local Abbreviation fresh := (__init__ false false false : xbee).

(** Two noise bytes before the frame [7E 00 02 23 41 9B]. *)
Lemma data_received_skips_noise_witness :
  let noise := [x01; x02] in
  let y := [x00; x02; x23; x41; x9b] in
  _frame fresh = None /\
  find_start (_data fresh ++ noise) = None /\
  data_received fresh (noise ++ START_BYTE :: y)
  = data_received (set_frame_data fresh None []) (START_BYTE :: y).
Proof.
  do 2 (split; [reflexivity|]).
  apply (data_received_skips_noise fresh [x01; x02]
           [x00; x02; x23; x41; x9b]); reflexivity.
Defined.


(** An assembler that holds one byte more than its frame needs. *)
Lemma negative_remaining_stalls_witness :
  let f := APIFrame.mk false [x7e; x00; x00; xff; x00] [] in
  let self : xbee := mkXBee false false false (Some f) [] None [] [] in
  let chunks := [[x7e; x00]; [x01; x01; xfe]] in
  _frame self = Some f /\
  remaining_bytes f < 0 /\
  feed self chunks
  = (set_frame_data self (Some f) (_data self ++ concat chunks), []).
Proof.
  do 2 (split; [reflexivity|]).
  apply (negative_remaining_stalls [[x7e; x00]; [x01; x01; xfe]]
           (mkXBee false false false
              (Some (APIFrame.mk false [x7e; x00; x00; xff; x00] []))
              [] None [] [])
           (APIFrame.mk false [x7e; x00; x00; xff; x00] [])); reflexivity.
Defined.

(** The frame [7E 00 02 23 41 9B] with one pull outstanding. *)
Lemma valid_frame_handed_over_witness :
  let self : xbee := (wait_read_frame fresh).1 in
  let chunk := [x7e; x00; x02; x23; x41; x9b] in
  let f := APIFrame.mk false chunk [] in
  let f' := APIFrame.mk false chunk [x23; x41] in
  let info := _split_response (data f') in
  let self' := (data_received self chunk).1 in
  assembled self chunk = Some (f, []) /\
  remaining_bytes f = 0 /\
  parse f = Some f' /\
  data f' <> [] /\
  deliveries (data_received self chunk).2 = [info] /\
  _frame self' = None /\ _data self' = [] /\
  (data_received self chunk).2
  = (if _callback self then [ToCallback info]
     else match _future self with
          | Some fut => [ToWaiter fut info]
          | None => [ToBacklog info]
          end) /\
  _queue self'
  = (if _callback self then _queue self
     else match _future self with
          | Some _ => _queue self
          | None => _queue self ++ [info]
          end) /\
  futures self'
  = (if _callback self then futures self
     else match _future self with
          | Some fut => <[fut := Finished info]> (futures self)
          | None => futures self
          end) /\
  _future self' = (if _callback self then _future self else None).
Proof.
  do 3 (split; [reflexivity|]). split; [discriminate|].
  apply (valid_frame_handed_over (wait_read_frame fresh).1
           [x7e; x00; x02; x23; x41; x9b]
           (APIFrame.mk false [x7e; x00; x02; x23; x41; x9b] [])
           (APIFrame.mk false [x7e; x00; x02; x23; x41; x9b] [x23; x41]) []);
    (reflexivity || discriminate).
Defined.

(** A frame, a pull that gets it, then another pull and another frame. *)
Lemma pull_result_is_final_witness :
  let w := [x7e; x00; x02; x23; x41; x9b] in
  let cs := [Data w; Wait] in
  let cs' := [Wait; Data w] in
  futures (run fresh cs) !! 0%nat = Some (Finished ([x23], [x41])) /\
  futures (run fresh (cs ++ cs')) !! 0%nat = Some (Finished ([x23], [x41])).
Proof.
  split; [reflexivity|].
  apply (pull_result_is_final false false false
           [Data [x7e; x00; x02; x23; x41; x9b]; Wait]
           [Wait; Data [x7e; x00; x02; x23; x41; x9b]] 0 ([x23], [x41])).
  reflexivity.
Defined.

(** A frame cut inside its length field. *)
Lemma chunk_boundary_unobservable_witness :
  let a := [x7e; x00] in
  let b := [x02; x23; x41; x9b] in
  completes fresh a = false /\
  (data_received fresh a).2 = [] /\
  data_received (data_received fresh a).1 b = data_received fresh (a ++ b).
Proof.
  split; [reflexivity|].
  apply (chunk_boundary_unobservable fresh [x7e; x00] [x02; x23; x41; x9b]).
  reflexivity.
Defined.

(** The frame [7E 00 02 23 41 00], whose checksum byte is wrong. *)
Lemma failed_parse_drops_frame_witness :
  let chunk := [x7e; x00; x02; x23; x41; x00] in
  let f := APIFrame.mk false chunk [] in
  assembled fresh chunk = Some (f, []) /\
  remaining_bytes f = 0 /\
  parse f = None /\
  data_received fresh chunk
  = (set_frame_data fresh None [], [ToStdout "Bad frame checksum"%string]) /\
  deliveries (data_received fresh chunk).2 = [] /\
  _future (data_received fresh chunk).1 = _future fresh /\
  _queue (data_received fresh chunk).1 = _queue fresh /\
  futures (data_received fresh chunk).1 = futures fresh.
Proof.
  do 3 (split; [reflexivity|]).
  apply (failed_parse_drops_frame fresh [x7e; x00; x02; x23; x41; x00]
           (APIFrame.mk false [x7e; x00; x02; x23; x41; x00] []) []);
    reflexivity.
Defined.

(** One pull on a new driver. *)
Lemma waiter_future_is_pending_witness :
  _future (run fresh [Wait]) = Some 0%nat /\
  futures (run fresh [Wait]) !! 0%nat = Some Pending.
Proof.
  split; [reflexivity|].
  apply (waiter_future_is_pending false false false [Wait] 0). reflexivity.
Defined.

(** The first two bytes of a frame. *)
Lemma frame_in_progress_has_read_all_witness :
  let chunk := [x7e; x00] in
  let f := APIFrame.mk false chunk [] in
  _frame (data_received fresh chunk).1 = Some f /\
  remaining_bytes f <> 0 /\
  (0 < remaining_bytes f -> _data (data_received fresh chunk).1 = []).
Proof.
  split; [reflexivity|].
  apply (frame_in_progress_has_read_all fresh [x7e; x00]
           (APIFrame.mk false [x7e; x00] [])).
  reflexivity.
Defined.

End MoreWitnesses.
